(** * DPL receptionist chat widget: the conversation state machine

    A shallow embedding of the front end's conversation logic:

    - [types/index.ts]            the [Message] and [ChatState] records;
    - [services/api]              [visitorService.processMessage];
    - [components/ChatInput.tsx]  the input control and its [handleSubmit];
    - [components/ChatContainer.tsx] and its sibling version, which differ
      in the props they hand to [ChatInput];
    - [App.tsx]                   [INITIAL_STATE], [resetChat], [handleSend].

    JavaScript strings are sequences of UTF-16 code units, objects used as
    dictionaries are finite maps, [new Date()] is a reading of the clock that
    the event supplies, and the asynchronous [handleSend] is split at its
    single [await] into the part that runs before the transport call and the
    part that runs once the call has settled. *)

From Stdlib Require Import ZArith NArith Ascii String List Lia.
From stdpp Require Import base option list gmap strings.

Local Open Scope N_scope.

(** ** JavaScript values *)

(** A JS string is a sequence of UTF-16 code units. *)
Abbreviation JSString := (list N).

(** An ASCII literal of the source, as code units. *)
Definition lit (s : string) : JSString :=
  N_of_ascii <$> list_ascii_of_string s.

(** [new Date()]: milliseconds since the epoch. *)
Abbreviation Date := Z.

(** The values a JSON body can carry in a field ([JNum] holds the
    integer-valued numbers). *)
#[local] Unset Elimination Schemes.
Inductive JSValue : Type :=
| JNull
| JBool (b : bool)
| JNum (n : Z)
| JStr (s : JSString)
| JArr (items : list JSValue)
| JObj (fields : list (JSString * JSValue)).
#[local] Set Elimination Schemes.

(** A plain object used as a record with optional fields. *)
Abbreviation JSObject := (gmap JSString JSValue).

(** ToBoolean, on a value that may be [undefined] ([None]). *)
Definition truthy (v : option JSValue) : bool :=
  match v with
  | None | Some JNull => false
  | Some (JBool b) => b
  | Some (JNum n) => negb (n =? 0)%Z
  | Some (JStr s) => match s with [] => false | _ => true end
  | Some (JArr _) | Some (JObj _) => true
  end.

(** [o?.k] *)
Definition optional_get (o : option JSObject) (k : JSString) : option JSValue :=
  o ≫= (λ fields, fields !! k).

(** [{ ...a, ...b }] where [b] may be [undefined]: the own properties of [a],
    then those of [b] written over them. *)
Definition spread (a : JSObject) (b : option JSObject) : JSObject :=
  default ∅ b ∪ a.

(** [x || y] on a string that may be [undefined]. *)
Definition or_else (x : option JSString) (y : JSString) : JSString :=
  match x with
  | None | Some [] => y
  | Some s => s
  end.

(** ** [String.prototype.trim] *)

(** WhiteSpace and LineTerminator code units of ECMAScript. *)
Definition is_white_space (c : N) : bool :=
  (c =? 9) || (c =? 10) || (c =? 11) || (c =? 12) || (c =? 13) || (c =? 32)
  || (c =? 160) || (c =? 5760) || ((8192 <=? c) && (c <=? 8202))
  || (c =? 8232) || (c =? 8233) || (c =? 8239) || (c =? 8287)
  || (c =? 12288) || (c =? 65279).

Fixpoint drop_while {A} (p : A → bool) (l : list A) : list A :=
  match l with
  | [] => []
  | x :: l' => if p x then drop_while p l' else l
  end.

Definition trimStart (s : JSString) : JSString := drop_while is_white_space s.
Definition trimEnd (s : JSString) : JSString := rev (drop_while is_white_space (rev s)).
Definition trim (s : JSString) : JSString := trimEnd (trimStart s).

(** A string in a condition: truthy when it is not empty. *)
Definition non_empty (s : JSString) : bool :=
  match s with [] => false | _ => true end.

(** ** types/index.ts *)

Inductive MessageType : Type := user | bot.

Record Message : Type := mkMessage {
  type : MessageType;
  content : JSString;
  timestamp : Date;
}.

Record ChatState : Type := mkChatState {
  messages : list Message;
  currentStep : JSString;
  visitorInfo : JSObject;
  isLoading : bool;
}.

(** ** services/api: [visitorService.processMessage] *)

Module visitorService.

(** The body posted to [/process-message/]. *)
Record RequestBody : Type := mkRequestBody {
  message : JSString;
  current_step : JSString;
  visitor_info : JSObject;
}.

(** [response.data] of a reply; [next_step] and [visitor_info] are
    optional in the contract, [None] standing for a field that is absent. *)
Record ResponseData : Type := mkResponseData {
  data_response : JSString;
  data_next_step : option JSString;
  data_visitor_info : option JSObject;
}.

(** What [processMessage] returns to its caller. *)
Record Result : Type := mkResult {
  response : JSString;
  nextStep : option JSString;
  visitorInfo : option JSObject;
}.

(** How the awaited promise settles. *)
Inductive Settled : Type :=
| Fulfilled (data : ResponseData)
| Rejected.

(** The one request [processMessage] sends. *)
Definition processMessage (message currentStep : JSString)
    (visitorInfo : JSObject) : RequestBody :=
  {| message := message;
     current_step := currentStep;
     visitor_info := visitorInfo |}.

(** The value it resolves to from the reply's body. *)
Definition processMessage_result (data : ResponseData) : Result :=
  {| response := data_response data;
     nextStep := data_next_step data;
     visitorInfo := data_visitor_info data |}.

End visitorService.

(** ** components/ChatInput.tsx *)

Module ChatInput.

(** [disabled?: boolean]; [onSend] is the callback whose invocations
    [handleSubmit] returns. *)
Record Props : Type := mkProps { disabled : option bool }.

(** [{ onSend, disabled = false }] *)
Definition disabled_or_default (p : Props) : bool := default false (disabled p).

Definition maxLength : nat := 300.

(** [handleSubmit] on the buffer [message]: the arguments [onSend] was
    called with, in order, and the buffer afterwards. *)
Definition handleSubmit (p : Props) (message : JSString)
    : list JSString * JSString :=
  if non_empty (trim message) && negb (disabled_or_default p)
  then ([trim message], [])
  else ([], message).

(** [onChange]: the text input, which carries [maxLength={300}], lets the
    user bring its value to [v] only when [v] fits, counted in code units;
    [setMessage] then stores it. *)
Definition onChange (v : JSString) : option JSString :=
  if decide (length v ≤ maxLength)%nat then Some v else None.

(** The disabled attribute of the submit button. *)
Definition button_disabled (p : Props) (message : JSString) : bool :=
  negb (non_empty (trim message)) || disabled_or_default p.

End ChatInput.

(** ** components/ChatContainer.tsx *)

Module ChatContainer.

(** [<ChatInput onSend={onSend} isLoading={isLoading} />]: [ChatInput]
    reads no [isLoading] prop, and [disabled] is not passed. *)
Definition input_props (isLoading : bool) : ChatInput.Props :=
  {| ChatInput.disabled := None |}.

End ChatContainer.

(** The other version of the container in the repository. *)
Module ChatContainerSibling.

(** [<ChatInput onSend={onSend} disabled={isLoading} />] *)
Definition input_props (isLoading : bool) : ChatInput.Props :=
  {| ChatInput.disabled := Some isLoading |}.

End ChatContainerSibling.

(** ** App.tsx *)

Module App.

Definition welcome : JSString :=
  lit "Welcome to DPL! I am your AI receptionist. Please select your visitor type:".
Definition restart_prompt : JSString :=
  lit "Click anywhere to start a new registration.".
Definition apology : JSString :=
  lit "Sorry, I encountered an error. Please try again.".

(** [INITIAL_STATE] is built once, when the module is loaded, at
    [loadTime]. *)
Definition INITIAL_STATE (loadTime : Date) : ChatState :=
  {| messages := [ {| type := bot; content := welcome; timestamp := loadTime |} ];
     currentStep := lit "visitor_type";
     visitorInfo := ∅;
     isLoading := false |}.

(** [resetChat]: [setState(INITIAL_STATE)]. *)
Definition resetChat (loadTime : Date) : ChatState := INITIAL_STATE loadTime.

(** The updaters handed to [setState], each a function of [prev]. *)

(** "Add user message" *)
Definition add_user_message (message : JSString) (now : Date)
    (prev : ChatState) : ChatState :=
  {| messages := messages prev
       ++ [ {| type := user; content := message; timestamp := now |} ];
     currentStep := currentStep prev;
     visitorInfo := visitorInfo prev;
     isLoading := true |}.

(** "Add final message and update state" *)
Definition complete_registration (response : JSString)
    (visitorInfo' : option JSObject) (now now' : Date)
    (prev : ChatState) : ChatState :=
  {| messages := messages prev
       ++ [ {| type := bot; content := response; timestamp := now |};
            {| type := bot; content := restart_prompt; timestamp := now' |} ];
     currentStep := lit "complete";
     visitorInfo := spread (visitorInfo prev) visitorInfo';
     isLoading := false |}.

(** "Normal message flow" *)
Definition normal_flow (response : JSString) (nextStep : option JSString)
    (visitorInfo' : option JSObject) (now : Date)
    (prev : ChatState) : ChatState :=
  {| messages := messages prev
       ++ [ {| type := bot; content := response; timestamp := now |} ];
     currentStep := or_else nextStep (currentStep prev);
     visitorInfo := spread (visitorInfo prev) visitorInfo';
     isLoading := false |}.

(** The updater of the [catch] block. *)
Definition error_flow (now : Date) (prev : ChatState) : ChatState :=
  {| messages := messages prev
       ++ [ {| type := bot; content := apology; timestamp := now |} ];
     currentStep := currentStep prev;
     visitorInfo := visitorInfo prev;
     isLoading := false |}.

(** [handleSend] up to its [await]: either it returns at once, or it has
    set the state and a call of [processMessage] is pending. *)
Inductive Started : Type :=
| Returned (next : ChatState)
| Awaiting (next : ChatState) (call : visitorService.RequestBody).

Definition state_of (r : Started) : ChatState :=
  match r with Returned next | Awaiting next _ => next end.

Definition calls_of (r : Started) : list visitorService.RequestBody :=
  match r with Returned _ => [] | Awaiting _ call => [call] end.

(** [state.currentStep === 'complete' && !state.isLoading] *)
Definition completed_and_idle (state : ChatState) : bool :=
  bool_decide (currentStep state = lit "complete") && negb (isLoading state).

Definition handleSend (loadTime : Date) (state : ChatState)
    (message : JSString) (now : Date) : Started :=
  if completed_and_idle state
  then Returned (resetChat loadTime)
  else Awaiting (add_user_message message now state)
         (visitorService.processMessage message (currentStep state)
            (visitorInfo state)).

(** [handleSend] after its [await]: the updater it hands to [setState]
    once the call has settled; [now] and [now'] are the clock readings of
    the updater's [new Date()]. *)
Definition handleSend_settled (outcome : visitorService.Settled)
    (now now' : Date) (prev : ChatState) : ChatState :=
  match outcome with
  | visitorService.Fulfilled data =>
      let r := visitorService.processMessage_result data in
      if truthy (optional_get (visitorService.visitorInfo r)
                   (lit "registration_completed"))
      then complete_registration (visitorService.response r)
             (visitorService.visitorInfo r) now now' prev
      else normal_flow (visitorService.response r)
             (visitorService.nextStep r) (visitorService.visitorInfo r)
             now prev
  | visitorService.Rejected => error_flow now prev
  end.

(** One whole turn with nothing else in between: [handleSend] on
    [message], then the settling of its call when one was made. *)
Definition turn (loadTime : Date) (state : ChatState) (message : JSString)
    (sent : Date) (outcome : visitorService.Settled) (now now' : Date)
    : ChatState :=
  match handleSend loadTime state message sent with
  | Returned next => next
  | Awaiting next _ => handleSend_settled outcome now now' next
  end.

(** The three visitor-type buttons and the literal each passes to
    [handleVisitorType]. *)
Inductive VisitorTypeButton : Type := Guest | Vendor | PreScheduled.

Definition button_payload (b : VisitorTypeButton) : JSString :=
  match b with
  | Guest => lit "guest"
  | Vendor => lit "vendor"
  | PreScheduled => lit "3"
  end.

Definition handleVisitorType (loadTime : Date) (state : ChatState)
    (type : JSString) (now : Date) : Started :=
  handleSend loadTime state type now.

End App.

(** ** The page: [App], its [ChatContainer] and the [ChatInput] inside it *)

Module Page.

Section Page.

(** When the module was loaded, and the props the container in use gives to
    [ChatInput] for a given [isLoading]. *)
Variable loadTime : Date.
Variable input_props : bool → ChatInput.Props.

(** What is on the page: the state of [App], the buffer of [ChatInput], and
    the calls of [processMessage] that have not settled yet. *)
Record World : Type := mkWorld {
  app : ChatState;
  input : JSString;
  inFlight : list visitorService.RequestBody;
}.

Inductive Event : Type :=
| Edit (v : JSString)
| Submit (now : Date)
| Click (b : App.VisitorTypeButton) (now : Date)
| Settle (i : nat) (outcome : visitorService.Settled) (now now' : Date).

Definition initial : World :=
  {| app := App.INITIAL_STATE loadTime; input := []; inFlight := [] |}.

(** The page once a handler has run up to its [await] or its return. *)
Definition started (w : World) (r : App.Started) : World :=
  {| app := App.state_of r;
     input := input w;
     inFlight := inFlight w ++ App.calls_of r |}.

(** [onSend(message)] reaching [handleSend]. *)
Definition onSend (now : Date) (w : World) (message : JSString) : World :=
  started w (App.handleSend loadTime (app w) message now).

(** The buttons are rendered while [state.currentStep === 'visitor_type']. *)
Definition buttons_shown (state : ChatState) : bool :=
  bool_decide (currentStep state = lit "visitor_type").

(** One event of the page; [None] when the page cannot have that event: an
    edit of a disabled or full text input, a click on a button that is not
    rendered, the settling of a call that is not pending. *)
Definition step (w : World) (e : Event) : option World :=
  match e with
  | Edit v =>
      if ChatInput.disabled_or_default (input_props (isLoading (app w)))
      then None
      else
        buffer ← ChatInput.onChange v;
        Some {| app := app w; input := buffer; inFlight := inFlight w |}
  | Submit now =>
      let '(sends, buffer) :=
        ChatInput.handleSubmit (input_props (isLoading (app w))) (input w) in
      Some (foldl (onSend now)
              {| app := app w; input := buffer; inFlight := inFlight w |}
              sends)
  | Click b now =>
      if buttons_shown (app w)
      then Some (started w (App.handleVisitorType loadTime (app w)
                              (App.button_payload b) now))
      else None
  | Settle i outcome now now' =>
      _ ← inFlight w !! i;
      Some {| app := App.handleSend_settled outcome now now' (app w);
              input := input w;
              inFlight := delete i (inFlight w) |}
  end.

Fixpoint run (w : World) (events : list Event) : option World :=
  match events with
  | [] => Some w
  | e :: events' => w' ← step w e; run w' events'
  end.

Definition reachable (w : World) : Prop :=
  ∃ events, run initial events = Some w.

End Page.

End Page.

(** The call sites of [onSend] and [handleSend]: the input control, the
    visitor-type buttons, and the click handler of the sibling container. *)
Inductive sent_by_ui : JSString → Prop :=
| sent_by_input p buffer m :
    m ∈ (ChatInput.handleSubmit p buffer).1 → sent_by_ui m
| sent_by_button b : sent_by_ui (App.button_payload b)
| sent_by_click : sent_by_ui [].

(** Empty or made of white space only. *)
Definition whitespace_only (s : JSString) : bool := forallb is_white_space s.

(** ** services/api: the visitor records *)

Module visitorRecords.








End visitorRecords.

(** ** What holds of the page along its events *)

(** An event that is a click on a visitor-type button. *)
Definition is_click (e : Page.Event) : bool :=
  match e with Page.Click _ _ => true | _ => false end.

(** The first entry of [INITIAL_STATE.messages]. *)
Definition welcome_message (loadTime : Date) : Message :=
  {| type := bot; content := App.welcome; timestamp := loadTime |}.

(** A text as the user interface sends it: not empty, nothing to trim, and
    no longer than the text input allows. *)
Definition sendable (m : JSString) : Prop :=
  m ≠ [] ∧ trim m = m ∧ (length m ≤ ChatInput.maxLength)%nat.

Definition call_well_formed (call : visitorService.RequestBody) : Prop :=
  sendable (visitorService.message call)
  ∧ visitorService.current_step call ≠ []
  ∧ visitorService.current_step call ≠ lit "complete".

Record page_invariant (loadTime : Date) (w : Page.World) : Prop := {
  inv_input : (length (Page.input w) ≤ ChatInput.maxLength)%nat;
  inv_step : currentStep (Page.app w) ≠ [];
  inv_complete :
    currentStep (Page.app w) = lit "complete" → isLoading (Page.app w) = false;
  inv_loading : isLoading (Page.app w) = true → Page.inFlight w ≠ [];
  inv_calls : Forall call_well_formed (Page.inFlight w);
  inv_welcome :
    ∃ rest, messages (Page.app w) = welcome_message loadTime :: rest;
  inv_user :
    Forall (λ msg, type msg = user → sendable (content msg))
      (messages (Page.app w));
}.

(** * Properties *)

(** ** [trim] *)

Section DropWhile.

Context {A : Type} (p : A → bool).

Lemma drop_while_head l c r : drop_while p l = c :: r → p c = false.
Proof.
  induction l as [|x l IH]; simpl; [discriminate|].
  destruct (p x) eqn:Hx; [exact IH|].
  intros [= <- _]. exact Hx.
Qed.

Lemma drop_while_stop c r : p c = false → drop_while p (c :: r) = c :: r.
Proof. intros Hc. simpl. by rewrite Hc. Qed.

Lemma drop_while_idem l : drop_while p (drop_while p l) = drop_while p l.
Proof.
  destruct (drop_while p l) as [|c r] eqn:E; [done|].
  apply drop_while_stop. by eapply drop_while_head.
Qed.

Lemma drop_while_snoc l c :
  p c = false → drop_while p (l ++ [c]) = drop_while p l ++ [c].
Proof.
  intros Hc. induction l as [|x l IH]; simpl.
  - by rewrite Hc.
  - by destruct (p x).
Qed.

Lemma drop_while_nil l : drop_while p l = [] ↔ forallb p l = true.
Proof.
  induction l as [|x l IH]; simpl; [done|].
  destruct (p x); simpl; [exact IH|]. split; discriminate.
Qed.

Lemma forallb_drop_while l :
  forallb p (drop_while p l) = true ↔ forallb p l = true.
Proof.
  rewrite <- drop_while_nil, drop_while_idem. apply drop_while_nil.
Qed.

Lemma forallb_rev' l : forallb p (rev l) = forallb p l.
Proof.
  induction l as [|x l IH]; simpl; [done|].
  rewrite forallb_app, IH. simpl. rewrite andb_true_r. apply andb_comm.
Qed.

End DropWhile.

(** Trimming leaves nothing exactly when the string is empty or made of
    white space only. *)
Lemma trim_nil s : trim s = [] ↔ whitespace_only s = true.
Proof.
  unfold trim, trimEnd, trimStart, whitespace_only.
  rewrite <- (forallb_drop_while is_white_space s).
  rewrite <- (forallb_rev' is_white_space (drop_while _ s)).
  rewrite <- drop_while_nil. split.
  - intros H. apply (f_equal (@rev N)) in H. by rewrite rev_involutive in H.
  - by intros ->.
Qed.

Lemma non_empty_trim s : non_empty (trim s) = negb (whitespace_only s).
Proof.
  destruct (whitespace_only s) eqn:E.
  - apply trim_nil in E. by rewrite E.
  - destruct (trim s) eqn:Et; [|done].
    apply trim_nil in Et. congruence.
Qed.

(** A trimmed string starts and ends with the characters it had. *)
Lemma trim_shape s :
  trim s = [] ∨
  ∃ c ys, is_white_space c = false
          ∧ drop_while is_white_space ys = ys
          ∧ trim s = c :: rev ys.
Proof.
  unfold trim, trimEnd, trimStart.
  destruct (drop_while is_white_space s) as [|c r] eqn:E; [by left|right].
  pose proof (drop_while_head _ _ _ _ E) as Hc.
  exists c, (drop_while is_white_space (rev r)). split_and!; [done|apply drop_while_idem|].
  simpl rev. rewrite drop_while_snoc by done.
  by rewrite rev_app_distr.
Qed.

Lemma trim_idem s : trim (trim s) = trim s.
Proof.
  destruct (trim_shape s) as [->|(c & ys & Hc & Hys & ->)]; [done|].
  unfold trim, trimEnd, trimStart.
  rewrite drop_while_stop by done.
  simpl rev. rewrite rev_involutive, drop_while_snoc, Hys by done.
  by rewrite rev_app_distr.
Qed.

Lemma button_payload_trimmed b : trim (App.button_payload b) = App.button_payload b.
Proof. by destruct b; vm_compute. Qed.

(** Everything the user interface hands to [handleSend] is already trimmed. *)
Lemma sent_by_ui_trimmed m : sent_by_ui m → trim m = m.
Proof.
  intros [p buffer m' Hm|b|].
  - unfold ChatInput.handleSubmit in Hm.
    destruct (_ && _); simpl in Hm.
    + apply list_elem_of_singleton in Hm as ->. apply trim_idem.
    + by apply elem_of_nil in Hm.
  - apply button_payload_trimmed.
  - done.
Qed.

(** ** The updaters of [handleSend] *)

Lemma spread_lookup (a : JSObject) (b : option JSObject) k :
  spread a b !! k =
    match optional_get b k with Some x => Some x | None => a !! k end.
Proof.
  unfold spread, optional_get. destruct b as [r|]; simpl.
  - destruct (r !! k) as [x|] eqn:E.
    + by apply lookup_union_Some_l.
    + by apply lookup_union_r.
  - rewrite lookup_union_r; [done|apply lookup_empty].
Qed.

Lemma spread_undefined (a : JSObject) : spread a None = a.
Proof. unfold spread. simpl. apply (left_id_L ∅ (∪)). Qed.

Lemma handleSend_awaiting loadTime state m now :
  App.completed_and_idle state = false →
  App.handleSend loadTime state m now =
    App.Awaiting (App.add_user_message m now state)
      (visitorService.processMessage m (currentStep state) (visitorInfo state)).
Proof. unfold App.handleSend. by intros ->. Qed.

Lemma handleSend_returned loadTime state m now :
  App.completed_and_idle state = true →
  App.handleSend loadTime state m now = App.Returned (App.INITIAL_STATE loadTime).
Proof. unfold App.handleSend. by intros ->. Qed.

(** The updater of the [catch] block touches the transcript and the loading
    flag only, whatever state it is applied to. *)
Lemma error_flow_keeps now prev :
  currentStep (App.error_flow now prev) = currentStep prev
  ∧ visitorInfo (App.error_flow now prev) = visitorInfo prev.
Proof. done. Qed.

(** C2. A turn whose transport call is rejected ends in the state it began
    in, with the user's message and one apology from the bot added to the
    transcript and the loading flag cleared: [currentStep] and [visitorInfo]
    are those of before the turn. *)
Theorem C2_failure_absorbed loadTime state m sent now now' :
  App.completed_and_idle state = false →
  App.calls_of (App.handleSend loadTime state m sent) =
    [visitorService.processMessage m (currentStep state) (visitorInfo state)]
  ∧ App.turn loadTime state m sent visitorService.Rejected now now' =
    {| messages := messages state
         ++ [ {| type := user; content := m; timestamp := sent |};
              {| type := bot; content := App.apology; timestamp := now |} ];
       currentStep := currentStep state;
       visitorInfo := visitorInfo state;
       isLoading := false |}.
Proof.
  intros Hactive. unfold App.turn.
  rewrite handleSend_awaiting by done. split; [done|].
  unfold App.handleSend_settled, App.error_flow, App.add_user_message. simpl.
  by rewrite <- app_assoc.
Qed.

Lemma C2_failure_absorbed_witness :
  App.turn 0 (App.INITIAL_STATE 0) (lit "guest") 5 visitorService.Rejected 9 9 =
    {| messages :=
         [ {| type := bot; content := App.welcome; timestamp := 0 |};
           {| type := user; content := lit "guest"; timestamp := 5 |};
           {| type := bot; content := App.apology; timestamp := 9 |} ];
       currentStep := lit "visitor_type";
       visitorInfo := ∅;
       isLoading := false |}.
Proof.
  apply (C2_failure_absorbed 0 (App.INITIAL_STATE 0) (lit "guest") 5 9 9).
  reflexivity.
Defined.

(** C3. From [currentStep = "complete"] with nothing loading, [handleSend]
    returns at once for every payload: no call of [processMessage] is made,
    the payload appears nowhere, and the state is [INITIAL_STATE]: one
    welcome message from the bot, step ["visitor_type"], no visitor
    information, not loading. *)
Theorem C3_terminal_reset loadTime state m now :
  currentStep state = lit "complete" →
  isLoading state = false →
  App.handleSend loadTime state m now = App.Returned (App.INITIAL_STATE loadTime)
  ∧ App.calls_of (App.handleSend loadTime state m now) = []
  ∧ App.INITIAL_STATE loadTime =
      {| messages := [ {| type := bot; content := App.welcome;
                          timestamp := loadTime |} ];
         currentStep := lit "visitor_type";
         visitorInfo := ∅;
         isLoading := false |}.
Proof.
  intros Hstep Hidle.
  assert (App.completed_and_idle state = true) as Hc.
  { unfold App.completed_and_idle. rewrite Hidle, bool_decide_eq_true_2; done. }
  rewrite handleSend_returned by done. done.
Qed.

Lemma C3_terminal_reset_witness :
  let state :=
    {| messages := [ {| type := bot; content := lit "Done."; timestamp := 3 |} ];
       currentStep := lit "complete";
       visitorInfo := {[ lit "full_name" := JStr (lit "A") ]};
       isLoading := false |} in
  App.handleSend 0 state [] 7 = App.Returned (App.INITIAL_STATE 0)
  ∧ App.calls_of (App.handleSend 0 state [] 7) = [].
Proof.
  intros state.
  destruct (C3_terminal_reset 0 state [] 7) as (H1 & H2 & _);
    [reflexivity | reflexivity | exact (conj H1 H2)].
Defined.

(** C4. When the reply's [visitor_info] has [registration_completed = true],
    the settled call appends two bot messages, the reply's text and then the
    restart prompt, sets [currentStep] to ["complete"] whatever [next_step]
    the reply holds, and clears the loading flag. *)
Theorem C4_registration_completed data info now now' prev :
  visitorService.data_visitor_info data = Some info →
  info !! lit "registration_completed" = Some (JBool true) →
  let next :=
    App.handleSend_settled (visitorService.Fulfilled data) now now' prev in
  messages next = messages prev
    ++ [ {| type := bot; content := visitorService.data_response data;
            timestamp := now |};
         {| type := bot; content := App.restart_prompt; timestamp := now' |} ]
  ∧ App.restart_prompt = lit "Click anywhere to start a new registration."
  ∧ currentStep next = lit "complete"
  ∧ isLoading next = false.
Proof.
  intros Hinfo Hdone. unfold App.handleSend_settled. simpl.
  rewrite Hinfo. simpl. rewrite Hdone. done.
Qed.

Lemma C4_registration_completed_witness :
  let data :=
    {| visitorService.data_response := lit "Done.";
       visitorService.data_next_step := Some (lit "host");
       visitorService.data_visitor_info :=
         Some {[ lit "registration_completed" := JBool true ]} |} in
  let next :=
    App.handleSend_settled (visitorService.Fulfilled data) 8 9
      (App.add_user_message (lit "confirm") 5 (App.INITIAL_STATE 0)) in
  messages next =
    [ {| type := bot; content := App.welcome; timestamp := 0 |};
      {| type := user; content := lit "confirm"; timestamp := 5 |};
      {| type := bot; content := lit "Done."; timestamp := 8 |};
      {| type := bot; content := App.restart_prompt; timestamp := 9 |} ]
  ∧ currentStep next = lit "complete"
  ∧ isLoading next = false.
Proof.
  intros data next.
  destruct (C4_registration_completed data
              {[ lit "registration_completed" := JBool true ]} 8 9
              (App.add_user_message (lit "confirm") 5 (App.INITIAL_STATE 0)))
    as (H1 & _ & H2 & H3); [reflexivity | reflexivity | ].
  exact (conj H1 (conj H2 H3)).
Defined.

(** The visitor information after a fulfilled call, on either branch. *)
Lemma handleSend_settled_visitorInfo data now now' prev :
  visitorInfo (App.handleSend_settled (visitorService.Fulfilled data) now now' prev)
  = spread (visitorInfo prev) (visitorService.data_visitor_info data).
Proof. unfold App.handleSend_settled. simpl. by destruct (truthy _). Qed.

(** C5. After a fulfilled call that returned the partial visitor
    information [r], each field reads as in [r] when [r] has it and as
    accumulated before otherwise; so no accumulated field disappears. *)
Theorem C5_shallow_merge data r now now' prev :
  visitorService.data_visitor_info data = Some r →
  let next :=
    App.handleSend_settled (visitorService.Fulfilled data) now now' prev in
  (∀ k, visitorInfo next !! k =
          match r !! k with Some x => Some x | None => visitorInfo prev !! k end)
  ∧ (∀ k, is_Some (visitorInfo prev !! k) → is_Some (visitorInfo next !! k))
  ∧ dom (visitorInfo next) = dom r ∪ dom (visitorInfo prev).
Proof.
  intros Hr next.
  assert (∀ k, visitorInfo next !! k =
            match r !! k with Some x => Some x | None => visitorInfo prev !! k end)
    as Hlookup.
  { intros k. unfold next.
    by rewrite handleSend_settled_visitorInfo, spread_lookup, Hr. }
  split_and!; [done| |].
  - intros k Hk. rewrite Hlookup. by destruct (r !! k).
  - unfold next. rewrite handleSend_settled_visitorInfo, Hr.
    unfold spread. simpl. apply dom_union_L.
Qed.

Lemma C5_shallow_merge_witness :
  let full_name := lit "full_name" in
  let phone := lit "phone" in
  let prev :=
    {| messages := []; currentStep := lit "name";
       visitorInfo := {[ full_name := JStr (lit "A"); phone := JStr (lit "123") ]};
       isLoading := true |} in
  let data :=
    {| visitorService.data_response := lit "ok";
       visitorService.data_next_step := None;
       visitorService.data_visitor_info := Some {[ full_name := JStr (lit "B") ]} |} in
  let next := App.handleSend_settled (visitorService.Fulfilled data) 1 1 prev in
  visitorInfo next !! full_name = Some (JStr (lit "B"))
  ∧ visitorInfo next !! phone = Some (JStr (lit "123")).
Proof.
  intros full_name phone prev data next.
  destruct (C5_shallow_merge data {[ full_name := JStr (lit "B") ]} 1 1 prev)
    as (H & _ & _); [reflexivity|].
  split; [exact (H full_name) | exact (H phone)].
Defined.

(** C10. A fulfilled call whose reply has no [visitor_info] leaves the
    accumulated visitor information as it was. *)
Theorem C10_absent_visitor_info data now now' prev :
  visitorService.data_visitor_info data = None →
  visitorInfo (App.handleSend_settled (visitorService.Fulfilled data) now now' prev)
  = visitorInfo prev.
Proof.
  intros Habsent.
  rewrite handleSend_settled_visitorInfo, Habsent. apply spread_undefined.
Qed.

Lemma C10_absent_visitor_info_witness :
  let info : JSObject := {[ lit "full_name" := JStr (lit "A") ]} in
  visitorInfo
    (App.handleSend_settled
       (visitorService.Fulfilled
          {| visitorService.data_response := lit "ok";
             visitorService.data_next_step := Some (lit "phone");
             visitorService.data_visitor_info := None |})
       4 4
       {| messages := []; currentStep := lit "name";
          visitorInfo := info; isLoading := true |})
  = info.
Proof.
  intros info.
  apply (C10_absent_visitor_info
           {| visitorService.data_response := lit "ok";
              visitorService.data_next_step := Some (lit "phone");
              visitorService.data_visitor_info := None |}).
  reflexivity.
Defined.

(** [nextStep || prev.currentStep] *)
Lemma or_else_token tok y : tok ≠ [] → or_else (Some tok) y = tok.
Proof. by destruct tok. Qed.

(** A reply whose [next_step] is the empty string is a fulfilled,
    non-terminal turn whose token is present, and [currentStep] does not
    become that token: it stays ["visitor_type"]. *)
Lemma C7_empty_token_not_adopted :
  ¬ (∀ data tok now now' prev,
       truthy (optional_get (visitorService.data_visitor_info data)
                 (lit "registration_completed")) = false →
       visitorService.data_next_step data = Some tok →
       currentStep
         (App.handleSend_settled (visitorService.Fulfilled data) now now' prev)
       = tok).
Proof.
  intros H.
  specialize (H {| visitorService.data_response := lit "Which type?";
                   visitorService.data_next_step := Some [];
                   visitorService.data_visitor_info := None |}
                [] 6%Z 6%Z
                (App.add_user_message (lit "hello") 5 (App.INITIAL_STATE 0))
                eq_refl eq_refl).
  discriminate H.
Qed.

(** C7, amended. A fulfilled call whose reply does not signal completion
    appends one bot message with the reply's text and clears the loading
    flag; [currentStep] becomes the reply's [next_step] when that is present
    and not the empty string, and stays as it was when the reply omits
    [next_step] or holds the empty string there. *)
Theorem C7_ordinary_success data now now' prev :
  truthy (optional_get (visitorService.data_visitor_info data)
            (lit "registration_completed")) = false →
  let next :=
    App.handleSend_settled (visitorService.Fulfilled data) now now' prev in
  messages next = messages prev
    ++ [ {| type := bot; content := visitorService.data_response data;
            timestamp := now |} ]
  ∧ isLoading next = false
  ∧ (∀ tok, visitorService.data_next_step data = Some tok → tok ≠ [] →
            currentStep next = tok)
  ∧ (visitorService.data_next_step data = None
     ∨ visitorService.data_next_step data = Some [] →
     currentStep next = currentStep prev).
Proof.
  intros Hordinary. unfold App.handleSend_settled. simpl.
  rewrite Hordinary. simpl. split_and!; [done|done| |].
  - intros tok -> Htok. by apply or_else_token.
  - by intros [-> | ->].
Qed.

Lemma C7_ordinary_success_witness :
  let prev := App.add_user_message (lit "guest") 5 (App.INITIAL_STATE 0) in
  let data :=
    {| visitorService.data_response := lit "Your name?";
       visitorService.data_next_step := Some (lit "name");
       visitorService.data_visitor_info :=
         Some {[ lit "type" := JStr (lit "guest") ]} |} in
  let next := App.handleSend_settled (visitorService.Fulfilled data) 8 8 prev in
  messages next = messages prev
    ++ [ {| type := bot; content := lit "Your name?"; timestamp := 8 |} ]
  ∧ isLoading next = false
  ∧ currentStep next = lit "name".
Proof.
  intros prev data next.
  destruct (C7_ordinary_success data 8 8 prev) as (H1 & H2 & H3 & _);
    [reflexivity|].
  split_and!; [exact H1 | exact H2 | apply H3; [reflexivity | discriminate]].
Defined.

(** C6. For every payload [m] the user interface sends while the
    conversation is not at its idle end, [handleSend] has, by the time the
    call of [processMessage] is pending, put a user message with the trimmed
    [m] at the end of the transcript and set the loading flag. *)
Theorem C6_optimistic_append loadTime state m now :
  sent_by_ui m →
  App.completed_and_idle state = false →
  App.handleSend loadTime state m now =
    App.Awaiting
      {| messages := messages state
           ++ [ {| type := user; content := trim m; timestamp := now |} ];
         currentStep := currentStep state;
         visitorInfo := visitorInfo state;
         isLoading := true |}
      (visitorService.processMessage m (currentStep state) (visitorInfo state)).
Proof.
  intros Hsent Hactive. rewrite handleSend_awaiting by done.
  unfold App.add_user_message. by rewrite (sent_by_ui_trimmed m Hsent).
Qed.

Lemma C6_optimistic_append_witness :
  App.handleSend 0 (App.INITIAL_STATE 0) (lit "hello") 5 =
    App.Awaiting
      {| messages :=
           [ {| type := bot; content := App.welcome; timestamp := 0 |};
             {| type := user; content := lit "hello"; timestamp := 5 |} ];
         currentStep := lit "visitor_type";
         visitorInfo := ∅;
         isLoading := true |}
      (visitorService.processMessage (lit "hello") (lit "visitor_type") ∅).
Proof.
  apply (C6_optimistic_append 0 (App.INITIAL_STATE 0) (lit "hello") 5).
  - apply (sent_by_input (ChatInput.mkProps None) (lit "  hello ")).
    vm_compute. apply list_elem_of_here.
  - reflexivity.
Defined.

(** The updater of a settled call only adds to the transcript of the state
    it is applied to. *)
Lemma handleSend_settled_prefix outcome now now' prev :
  messages prev `prefix_of`
    messages (App.handleSend_settled outcome now now' prev).
Proof.
  unfold App.handleSend_settled.
  destruct outcome as [data|]; [destruct (truthy _)|]; by eexists.
Qed.

(** C8. Every transition but the reset keeps the transcript it found as a
    prefix of the one it leaves: the optimistic append of [handleSend], and
    the three updaters of a settled call (completion, ordinary reply,
    failure). No message already there is changed or dropped. *)
Theorem C8_transcript_append_only loadTime state m sent next call outcome now now' prev :
  App.handleSend loadTime state m sent = App.Awaiting next call →
  let final := App.handleSend_settled outcome now now' next in
  messages state `prefix_of` messages next
  ∧ messages prev `prefix_of`
      messages (App.handleSend_settled outcome now now' prev)
  ∧ (∀ i msg, messages state !! i = Some msg → messages final !! i = Some msg).
Proof.
  intros Hsend final.
  assert (messages state `prefix_of` messages next) as H1.
  { unfold App.handleSend in Hsend.
    destruct (App.completed_and_idle state); [discriminate|].
    injection Hsend as <- _. by eexists. }
  split_and!; [done|apply handleSend_settled_prefix|].
  intros i msg Hi. eapply prefix_lookup_Some; [exact Hi|].
  etrans; [exact H1|apply handleSend_settled_prefix].
Qed.

Lemma C8_transcript_append_only_witness :
  let first := {| type := bot; content := App.welcome; timestamp := 0 |} in
  let next := App.add_user_message (lit "guest") 5 (App.INITIAL_STATE 0) in
  messages (App.handleSend_settled visitorService.Rejected 9 9 next) !! 0%nat
  = Some first.
Proof.
  intros first next.
  destruct (C8_transcript_append_only 0 (App.INITIAL_STATE 0) (lit "guest") 5
              next
              (visitorService.processMessage (lit "guest") (lit "visitor_type") ∅)
              visitorService.Rejected 9 9 next) as (_ & _ & H); [reflexivity|].
  apply H. reflexivity.
Defined.

(** ** The input control *)

(** What [handleSubmit] hands to [onSend], for any props. *)
Lemma handleSubmit_sends p buffer :
  (ChatInput.handleSubmit p buffer).1 =
    if whitespace_only buffer || ChatInput.disabled_or_default p
    then [] else [trim buffer].
Proof.
  unfold ChatInput.handleSubmit. rewrite non_empty_trim.
  by destruct (whitespace_only buffer), (ChatInput.disabled_or_default p).
Qed.

Lemma handleSubmit_buffer p buffer :
  (ChatInput.handleSubmit p buffer).2 = buffer
  ∨ (ChatInput.handleSubmit p buffer).2 = [].
Proof. unfold ChatInput.handleSubmit. destruct (_ && _); auto. Qed.

Lemma onSend_input loadTime now w m :
  Page.input (Page.onSend loadTime now w m) = Page.input w.
Proof. done. Qed.

Lemma foldl_onSend_input loadTime now sends w :
  Page.input (foldl (Page.onSend loadTime now) w sends) = Page.input w.
Proof.
  revert w. induction sends as [|m sends IH]; intros w; simpl; [done|].
  by rewrite IH.
Qed.

(** No event of the page makes the buffer longer than [maxLength]. *)
Lemma step_input_bound loadTime input_props w e w' :
  Page.step loadTime input_props w e = Some w' →
  (length (Page.input w) ≤ ChatInput.maxLength)%nat →
  (length (Page.input w') ≤ ChatInput.maxLength)%nat.
Proof.
  intros Hstep Hbound. destruct e as [v|now|b now|i outcome now now']; simpl in Hstep.
  - destruct (ChatInput.disabled_or_default _); [discriminate|].
    unfold ChatInput.onChange in Hstep.
    destruct (decide _) as [Hfits|]; simpl in Hstep; [|discriminate].
    by injection Hstep as <-.
  - destruct (ChatInput.handleSubmit _ _) as [sends buffer] eqn:E.
    injection Hstep as <-. rewrite foldl_onSend_input. simpl.
    destruct (handleSubmit_buffer (input_props (isLoading (Page.app w)))
                (Page.input w)) as [H|H];
      rewrite E in H; simpl in H; subst buffer; [done|simpl; lia].
  - destruct (Page.buttons_shown _); [|discriminate].
    by injection Hstep as <-.
  - destruct (Page.inFlight w !! i); simpl in Hstep; [|discriminate].
    by injection Hstep as <-.
Qed.

Lemma run_input_bound loadTime input_props events w w' :
  Page.run loadTime input_props w events = Some w' →
  (length (Page.input w) ≤ ChatInput.maxLength)%nat →
  (length (Page.input w') ≤ ChatInput.maxLength)%nat.
Proof.
  revert w. induction events as [|e events IH]; intros w; simpl.
  - by intros [= <-].
  - destruct (Page.step loadTime input_props w e) as [w1|] eqn:E; simpl;
      [|discriminate].
    intros Hrun Hbound. apply (IH w1 Hrun). by eapply step_input_bound.
Qed.

(** C9. Submitting a buffer that is empty or white space only calls [onSend]
    zero times; submitting any other buffer through the control, which
    [ChatContainer] never disables, calls it once, with the trimmed buffer;
    and on the page the buffer never holds more than 300 code units. *)
Theorem C9_input_control loadTime input_props w p buffer :
  Page.reachable loadTime input_props w →
  (whitespace_only buffer = true → (ChatInput.handleSubmit p buffer).1 = [])
  ∧ (whitespace_only buffer = false →
     ChatInput.disabled_or_default p = false →
     (ChatInput.handleSubmit p buffer).1 = [trim buffer])
  ∧ (∀ isLoading,
       ChatInput.disabled_or_default (ChatContainer.input_props isLoading) = false)
  ∧ (length (Page.input w) ≤ 300)%nat.
Proof.
  intros [events Hrun]. split_and!.
  - intros Hblank. by rewrite handleSubmit_sends, Hblank.
  - intros Hfull Henabled. by rewrite handleSubmit_sends, Hfull, Henabled.
  - done.
  - eapply run_input_bound; [exact Hrun|]. simpl. lia.
Qed.

Lemma C9_input_control_witness :
  let p := ChatContainer.input_props true in
  (ChatInput.handleSubmit p (lit "   ")).1 = []
  ∧ (ChatInput.handleSubmit p (lit "  hello ")).1 = [lit "hello"].
Proof.
  intros p.
  assert (Page.reachable 0 ChatContainer.input_props
            {| Page.app := App.INITIAL_STATE 0;
               Page.input := lit "  hello ";
               Page.inFlight := [] |}) as Hreach.
  { exists [Page.Edit (lit "  hello ")]. reflexivity. }
  split.
  - destruct (C9_input_control 0 _ _ p (lit "   ") Hreach) as (H & _).
    apply H. reflexivity.
  - destruct (C9_input_control 0 _ _ p (lit "  hello ") Hreach) as (_ & H & _).
    apply H; reflexivity.
Defined.

(** ** Sends while a call is pending *)

(** Under the sibling container, which passes [disabled={isLoading}], a
    submit while loading changes neither the state of [App] nor the pending
    calls. *)
Lemma sibling_submit_while_loading loadTime w now :
  isLoading (Page.app w) = true →
  Page.step loadTime ChatContainerSibling.input_props w (Page.Submit now)
  = Some w.
Proof.
  intros Hloading. simpl. rewrite Hloading.
  unfold ChatInput.handleSubmit. simpl. rewrite andb_false_r.
  by destruct w.
Qed.

(** Under [ChatContainer], a submit of a buffer with text in it always
    reaches [handleSend], and while loading that starts another call. *)
Lemma submit_while_loading_calls loadTime w now :
  isLoading (Page.app w) = true →
  whitespace_only (Page.input w) = false →
  ∃ w', Page.step loadTime ChatContainer.input_props w (Page.Submit now) = Some w'
        ∧ Page.inFlight w' = Page.inFlight w
            ++ [visitorService.processMessage (trim (Page.input w))
                  (currentStep (Page.app w)) (visitorInfo (Page.app w))].
Proof.
  intros Hloading Hfull. simpl.
  unfold ChatInput.handleSubmit. rewrite non_empty_trim, Hfull. simpl.
  eexists. split; [done|].
  unfold Page.onSend. simpl. rewrite handleSend_awaiting; [done|].
  unfold App.completed_and_idle. rewrite Hloading. apply andb_false_r.
Qed.

(** C1, on the code. With [ChatContainer] as written, the page reaches a
    state that is loading with one call pending, and a submit of the input
    control there starts a second call while the first is still pending. *)
Theorem C1_second_submit_starts_second_call :
  let first := visitorService.processMessage (lit "hello") (lit "visitor_type") ∅ in
  let second := visitorService.processMessage (lit "again") (lit "visitor_type") ∅ in
  let w :=
    {| Page.app := App.add_user_message (lit "hello") 5 (App.INITIAL_STATE 0);
       Page.input := lit "again";
       Page.inFlight := [first] |} in
  Page.reachable 0 ChatContainer.input_props w
  ∧ isLoading (Page.app w) = true
  ∧ ∃ w', Page.step 0 ChatContainer.input_props w (Page.Submit 6) = Some w'
          ∧ Page.inFlight w' = [first; second].
Proof.
  intros first second w. split_and!.
  - exists [Page.Edit (lit "hello"); Page.Submit 5; Page.Edit (lit "again")].
    reflexivity.
  - reflexivity.
  - eexists. split; reflexivity.
Qed.

(** ** The transcript along the events of the page *)

Lemma started_transcript loadTime w state m now :
  Page.app w = state →
  let w' := Page.started w (App.handleSend loadTime state m now) in
  messages state `prefix_of` messages (Page.app w')
  ∨ (App.completed_and_idle state = true
     ∧ Page.app w' = App.INITIAL_STATE loadTime).
Proof.
  intros _ w'. unfold w', App.handleSend.
  destruct (App.completed_and_idle state); simpl; [by right|left].
  by eexists.
Qed.

(** Each event of the page either extends the transcript or is the reset
    from the idle end of a conversation. *)
Lemma step_transcript loadTime input_props w e w' :
  Page.step loadTime input_props w e = Some w' →
  messages (Page.app w) `prefix_of` messages (Page.app w')
  ∨ (App.completed_and_idle (Page.app w) = true
     ∧ Page.app w' = App.INITIAL_STATE loadTime).
Proof.
  intros Hstep. destruct e as [v|now|b now|i outcome now now']; simpl in Hstep.
  - destruct (ChatInput.disabled_or_default _); [discriminate|].
    destruct (ChatInput.onChange v); simpl in Hstep; [|discriminate].
    injection Hstep as <-. by left.
  - unfold ChatInput.handleSubmit in Hstep.
    destruct (_ && _); injection Hstep as <-; simpl; [|by left].
    by apply (started_transcript loadTime
                {| Page.app := Page.app w; Page.input := [];
                   Page.inFlight := Page.inFlight w |}).
  - destruct (Page.buttons_shown _); [|discriminate].
    injection Hstep as <-. by apply started_transcript.
  - destruct (Page.inFlight w !! i); simpl in Hstep; [|discriminate].
    injection Hstep as <-. left. apply handleSend_settled_prefix.
Qed.

(** * Further properties *)

(** ** What [trim] keeps and what it drops *)

Lemma drop_while_split {A} (p : A → bool) l :
  ∃ pre, l = pre ++ drop_while p l ∧ forallb p pre = true.
Proof.
  induction l as [|x l (pre & Hl & Hpre)]; simpl.
  - by exists [].
  - destruct (p x) eqn:Hx.
    + exists (x :: pre). simpl. rewrite Hx, Hpre. split; [by f_equal|done].
    + by exists [].
Qed.

(** The trimmed string is the string without a white prefix and a white
    suffix. *)
Lemma trim_slice s :
  ∃ pre suf, s = pre ++ trim s ++ suf
             ∧ whitespace_only pre = true ∧ whitespace_only suf = true.
Proof.
  unfold trim, trimEnd, trimStart, whitespace_only.
  destruct (drop_while_split is_white_space s) as (pre & Hs & Hpre).
  set (t := drop_while is_white_space s) in *.
  destruct (drop_while_split is_white_space (rev t)) as (suf & Ht & Hsuf).
  exists pre, (rev suf). split_and!; [|done|by rewrite forallb_rev'].
  rewrite <- rev_app_distr, <- Ht, rev_involutive. exact Hs.
Qed.

Lemma trim_length s : (length (trim s) ≤ length s)%nat.
Proof.
  destruct (trim_slice s) as (pre & suf & Hs & _).
  rewrite Hs at 2. rewrite !length_app. lia.
Qed.

Lemma trim_ends s c :
  head (trim s) = Some c ∨ last (trim s) = Some c → is_white_space c = false.
Proof.
  destruct (trim_shape s) as [->|(c0 & ys & Hc0 & Hys & ->)].
  - by intros [?|?].
  - intros [Hhead|Hlast].
    + simpl in Hhead. by injection Hhead as <-.
    + destruct ys as [|y ys].
      * simpl in Hlast. by injection Hlast as <-.
      * change (c0 :: rev (y :: ys)) with ((c0 :: rev ys) ++ [y]) in Hlast.
        rewrite last_snoc in Hlast. injection Hlast as <-.
        by eapply drop_while_head.
Qed.

(** ** The input control *)

(** X1. The submit button is disabled exactly when [handleSubmit] would call
    [onSend] zero times, and the buffer is cleared exactly when it calls it:
    a submit that sends nothing leaves the typed text in place. *)
Theorem button_disabled_iff_nothing_sent p buffer :
  (ChatInput.button_disabled p buffer = true
   ↔ (ChatInput.handleSubmit p buffer).1 = [])
  ∧ ChatInput.handleSubmit p buffer =
      if ChatInput.button_disabled p buffer
      then ([], buffer) else ([trim buffer], []).
Proof.
  unfold ChatInput.button_disabled, ChatInput.handleSubmit.
  destruct (non_empty (trim buffer)), (ChatInput.disabled_or_default p);
    simpl; split; try done; split; congruence.
Qed.

(** X2. Whatever [handleSubmit] hands to [onSend] is not empty, neither
    starts nor ends with a white-space code unit, and is the buffer with a
    white prefix and a white suffix taken off; so it is no longer than the
    buffer. *)
Theorem handleSubmit_payload_shape p buffer m :
  m ∈ (ChatInput.handleSubmit p buffer).1 →
  m ≠ []
  ∧ (∀ c, head m = Some c ∨ last m = Some c → is_white_space c = false)
  ∧ (∃ pre suf, buffer = pre ++ m ++ suf
                ∧ whitespace_only pre = true ∧ whitespace_only suf = true)
  ∧ (length m ≤ length buffer)%nat.
Proof.
  unfold ChatInput.handleSubmit.
  destruct (non_empty (trim buffer)) eqn:Hfull; simpl;
    [destruct (negb _); simpl|]; intros Hm; try by apply elem_of_nil in Hm.
  apply list_elem_of_singleton in Hm as ->. split_and!.
  - by destruct (trim buffer).
  - apply trim_ends.
  - apply trim_slice.
  - apply trim_length.
Qed.

Lemma handleSubmit_payload_shape_witness :
  let m := lit "a b" in
  m ≠ [] ∧ (length m ≤ length (lit "  a b "))%nat.
Proof.
  intros m.
  destruct (handleSubmit_payload_shape (ChatInput.mkProps None) (lit "  a b ") m)
    as (H1 & _ & _ & H2).
  - vm_compute. apply list_elem_of_here.
  - exact (conj H1 H2).
Defined.

(** ** The events of the page, case by case *)

Lemma handleSend_cases loadTime state m now :
  (App.completed_and_idle state = true
   ∧ App.handleSend loadTime state m now = App.Returned (App.INITIAL_STATE loadTime))
  ∨ (App.completed_and_idle state = false
     ∧ App.handleSend loadTime state m now =
         App.Awaiting (App.add_user_message m now state)
           (visitorService.processMessage m (currentStep state)
              (visitorInfo state))).
Proof.
  unfold App.handleSend. destruct (App.completed_and_idle state); auto.
Qed.

(** An event leaves [App] alone, or is a send of a text from the input
    control or from a button, or settles a pending call. *)
Lemma step_cases loadTime input_props w e w' :
  Page.step loadTime input_props w e = Some w' →
  (Page.app w' = Page.app w ∧ Page.inFlight w' = Page.inFlight w
   ∧ (Page.input w' = Page.input w
      ∨ (length (Page.input w') ≤ ChatInput.maxLength)%nat))
  ∨ (∃ m now,
       ((m = trim (Page.input w) ∧ m ≠ [] ∧ Page.input w' = []
         ∧ ChatInput.disabled_or_default
             (input_props (isLoading (Page.app w))) = false)
        ∨ (∃ b, m = App.button_payload b
                ∧ currentStep (Page.app w) = lit "visitor_type"
                ∧ Page.input w' = Page.input w
                ∧ is_click e = true))
       ∧ Page.app w' = App.state_of (App.handleSend loadTime (Page.app w) m now)
       ∧ Page.inFlight w' = Page.inFlight w
           ++ App.calls_of (App.handleSend loadTime (Page.app w) m now))
  ∨ (∃ i call outcome now now',
       Page.inFlight w !! i = Some call
       ∧ Page.app w' = App.handleSend_settled outcome now now' (Page.app w)
       ∧ Page.inFlight w' = delete i (Page.inFlight w)
       ∧ Page.input w' = Page.input w).
Proof.
  intros Hstep. destruct e as [v|now|b now|i outcome now now']; simpl in Hstep.
  - left. destruct (ChatInput.disabled_or_default _); [discriminate|].
    unfold ChatInput.onChange in Hstep.
    destruct (decide _); simpl in Hstep; [|discriminate].
    injection Hstep as <-. simpl. auto.
  - unfold ChatInput.handleSubmit in Hstep.
    destruct (non_empty (trim (Page.input w))) eqn:Hfull; simpl in Hstep;
      [destruct (ChatInput.disabled_or_default _) eqn:Hdisabled;
       simpl in Hstep|];
      injection Hstep as <-; simpl; auto.
    right; left. exists (trim (Page.input w)), now. split_and!; [|done|done].
    left. split_and!; [done| |done|done]. by destruct (trim (Page.input w)).
  - destruct (Page.buttons_shown (Page.app w)) eqn:Hshown; [|discriminate].
    injection Hstep as <-. right; left.
    exists (App.button_payload b), now. split_and!; [|done|done].
    right. exists b. split_and!; [done| |done|done].
    by apply bool_decide_eq_true_1 in Hshown.
  - destruct (Page.inFlight w !! i) as [call|] eqn:Hcall; simpl in Hstep;
      [|discriminate].
    injection Hstep as <-. right; right. by exists i, call, outcome, now, now'.
Qed.

Lemma or_else_non_empty x y : y ≠ [] → or_else x y ≠ [].
Proof. by destruct x as [[|c s]|]. Qed.

(** What a settled call does to the state it is applied to: bot messages
    are added, the flag is cleared, the step stays a non-empty token. *)
Lemma handleSend_settled_shape outcome now now' prev :
  ∃ added,
    messages (App.handleSend_settled outcome now now' prev)
    = messages prev ++ added
    ∧ Forall (λ msg, type msg = bot) added
    ∧ isLoading (App.handleSend_settled outcome now now' prev) = false
    ∧ (currentStep prev ≠ [] →
       currentStep (App.handleSend_settled outcome now now' prev) ≠ []).
Proof.
  unfold App.handleSend_settled.
  destruct outcome as [data|]; [destruct (truthy _)|]; simpl;
    eexists; (split_and!; [done|repeat constructor|done|]); try done.
  apply or_else_non_empty.
Qed.

Lemma button_payload_sendable b : sendable (App.button_payload b).
Proof.
  split_and!; [by destruct b|apply button_payload_trimmed|].
  destruct b; vm_compute; lia.
Qed.

Lemma trimmed_input_sendable buffer :
  (length buffer ≤ ChatInput.maxLength)%nat →
  trim buffer ≠ [] → sendable (trim buffer).
Proof.
  intros Hbound Hfull. split_and!; [done|apply trim_idem|].
  pose proof (trim_length buffer). lia.
Qed.

Lemma initial_invariant loadTime : page_invariant loadTime (Page.initial loadTime).
Proof.
  split; simpl; try done.
  - lia.
  - by exists [].
  - by repeat constructor.
Qed.

(** A send of a sendable text keeps the invariant. *)
Lemma send_invariant loadTime w w' m now :
  page_invariant loadTime w →
  sendable m →
  Page.app w' = App.state_of (App.handleSend loadTime (Page.app w) m now) →
  Page.inFlight w' = Page.inFlight w
    ++ App.calls_of (App.handleSend loadTime (Page.app w) m now) →
  (length (Page.input w') ≤ ChatInput.maxLength)%nat →
  page_invariant loadTime w'.
Proof.
  intros [Hinput Hstep Hcomplete Hloading Hcalls [rest Hwelcome] Huser]
    Hm Happ Hcalls' Hinput'.
  destruct (handleSend_cases loadTime (Page.app w) m now) as [[Hc E]|[Hc E]];
    rewrite E in Happ, Hcalls'; simpl in Happ, Hcalls'.
  - rewrite app_nil_r in Hcalls'.
    split; rewrite ?Happ, ?Hcalls'; simpl; try done.
    + by exists [].
    + by repeat constructor.
  - assert (currentStep (Page.app w) ≠ lit "complete") as Hactive.
    { intros Hdone. unfold App.completed_and_idle in Hc.
      by rewrite (Hcomplete Hdone), bool_decide_eq_true_2 in Hc. }
    split; rewrite ?Happ, ?Hcalls'; simpl; try done.
    + by intros _ [_ ?]%app_eq_nil.
    + apply Forall_app. split; [done|]. apply Forall_singleton.
      by unfold call_well_formed.
    + exists (rest ++ [ {| type := user; content := m; timestamp := now |} ]).
      by rewrite Hwelcome.
    + apply Forall_app. split; [done|]. by apply Forall_singleton.
Qed.

(** Every event of the page keeps the invariant. *)
Lemma step_invariant loadTime input_props w e w' :
  Page.step loadTime input_props w e = Some w' →
  page_invariant loadTime w → page_invariant loadTime w'.
Proof.
  intros Hstep Hinv.
  pose proof (step_input_bound _ _ _ _ _ Hstep (inv_input _ _ Hinv)) as Hinput'.
  destruct (step_cases _ _ _ _ _ Hstep)
    as [(Happ & Hcalls & _)
       |[(m & now & Hm & Happ & Hcalls)
        |(i & call & outcome & now & now' & Hi & Happ & Hcalls & _)]].
  - destruct Hinv. split; rewrite ?Happ, ?Hcalls; done.
  - eapply send_invariant; [exact Hinv| |exact Happ|exact Hcalls|exact Hinput'].
    destruct Hm as [(-> & Hfull & _)|(b & -> & _)].
    + apply trimmed_input_sendable; [apply Hinv|done].
    + apply button_payload_sendable.
  - destruct Hinv as [_ Hstep' _ _ Hcalls' [rest Hwelcome] Huser].
    destruct (handleSend_settled_shape outcome now now' (Page.app w))
      as (added & Hadded & Hbots & Hidle & Hkeeps).
    split; rewrite ?Happ, ?Hcalls; try done.
    + by apply Hkeeps.
    + by rewrite Hidle.
    + by apply Forall_delete.
    + exists (rest ++ added). by rewrite Hadded, Hwelcome.
    + rewrite Hadded. apply Forall_app. split; [done|].
      eapply Forall_impl; [exact Hbots|]. simpl. congruence.
Qed.

Lemma run_invariant loadTime input_props events w w' :
  Page.run loadTime input_props w events = Some w' →
  page_invariant loadTime w → page_invariant loadTime w'.
Proof.
  revert w. induction events as [|e events IH]; intros w; simpl.
  - by intros [= <-].
  - destruct (Page.step loadTime input_props w e) as [w1|] eqn:E; simpl;
      [|discriminate].
    intros Hrun Hinv. apply (IH w1 Hrun). by eapply step_invariant.
Qed.

Lemma reachable_invariant loadTime input_props w :
  Page.reachable loadTime input_props w → page_invariant loadTime w.
Proof.
  intros [events Hrun]. eapply run_invariant; [exact Hrun|].
  apply initial_invariant.
Qed.

(** ** The visitor-type buttons *)

(** X3. While the buttons are rendered, a click on one always goes through
    to the transport, loading or not: the button's literal is appended as a
    user message and sent with the step ["visitor_type"]. *)
Theorem click_always_calls loadTime input_props w b now :
  currentStep (Page.app w) = lit "visitor_type" →
  Page.step loadTime input_props w (Page.Click b now) =
    Some {| Page.app := App.add_user_message (App.button_payload b) now (Page.app w);
            Page.input := Page.input w;
            Page.inFlight := Page.inFlight w
              ++ [visitorService.processMessage (App.button_payload b)
                    (lit "visitor_type") (visitorInfo (Page.app w))] |}.
Proof.
  intros Hstep. simpl. unfold Page.buttons_shown, App.handleVisitorType.
  rewrite bool_decide_eq_true_2 by done.
  rewrite handleSend_awaiting; [by rewrite Hstep|].
  unfold App.completed_and_idle. by rewrite Hstep.
Qed.

Lemma click_always_calls_witness :
  let w :=
    {| Page.app := App.add_user_message (lit "guest") 5 (App.INITIAL_STATE 0);
       Page.input := [];
       Page.inFlight :=
         [visitorService.processMessage (lit "guest") (lit "visitor_type") ∅] |} in
  ∃ w', Page.step 0 ChatContainerSibling.input_props w (Page.Click App.Vendor 6)
        = Some w'
        ∧ length (Page.inFlight w') = 2%nat.
Proof.
  intros w. eexists. split.
  - apply (click_always_calls 0 ChatContainerSibling.input_props w App.Vendor 6).
    reflexivity.
  - reflexivity.
Defined.

(** ** Invariants of the page *)

(** X4. A conversation that has reached ["complete"] is never loading, so
    the next send, whatever its text, is the reset: nothing is appended and
    no call is made. *)
Theorem reachable_complete_resets loadTime input_props w m now :
  Page.reachable loadTime input_props w →
  currentStep (Page.app w) = lit "complete" →
  isLoading (Page.app w) = false
  ∧ App.handleSend loadTime (Page.app w) m now
    = App.Returned (App.INITIAL_STATE loadTime).
Proof.
  intros Hreach Hdone.
  pose proof (inv_complete _ _ (reachable_invariant _ _ _ Hreach) Hdone) as Hidle.
  split; [done|]. apply handleSend_returned.
  unfold App.completed_and_idle. by rewrite Hidle, bool_decide_eq_true_2.
Qed.

(** X5. Whenever the page is loading, a call is pending: the flag is set
    only by a send that starts a call and cleared whenever a call settles. *)
Theorem reachable_loading_has_pending loadTime input_props w :
  Page.reachable loadTime input_props w →
  isLoading (Page.app w) = true →
  Page.inFlight w ≠ [].
Proof. intros Hreach. apply (reachable_invariant _ _ _ Hreach). Qed.

(** X6. Every call the page makes carries a message that is not empty, has
    nothing to trim and holds at most 300 code units, and a [current_step]
    that is neither empty nor ["complete"]. *)
Theorem reachable_calls_well_formed loadTime input_props w call :
  Page.reachable loadTime input_props w →
  call ∈ Page.inFlight w →
  visitorService.message call ≠ []
  ∧ trim (visitorService.message call) = visitorService.message call
  ∧ (length (visitorService.message call) ≤ 300)%nat
  ∧ visitorService.current_step call ≠ []
  ∧ visitorService.current_step call ≠ lit "complete".
Proof.
  intros Hreach Hcall.
  pose proof (inv_calls _ _ (reachable_invariant _ _ _ Hreach)) as Hcalls.
  rewrite Forall_forall in Hcalls.
  destruct (Hcalls call Hcall) as ((? & ? & ?) & ? & ?). done.
Qed.

(** X7. The transcript always starts with the welcome message of
    [INITIAL_STATE], so it is never empty. *)
Theorem reachable_transcript_starts_with_welcome loadTime input_props w :
  Page.reachable loadTime input_props w →
  head (messages (Page.app w)) = Some (welcome_message loadTime).
Proof.
  intros Hreach.
  destruct (inv_welcome _ _ (reachable_invariant _ _ _ Hreach)) as [rest ->].
  done.
Qed.

(** X8. Every user message in the transcript is a text that is not empty,
    has nothing to trim and holds at most 300 code units. *)
Theorem reachable_user_messages_sendable loadTime input_props w msg :
  Page.reachable loadTime input_props w →
  msg ∈ messages (Page.app w) →
  type msg = user →
  content msg ≠ []
  ∧ trim (content msg) = content msg
  ∧ (length (content msg) ≤ 300)%nat.
Proof.
  intros Hreach Hmsg Huser.
  pose proof (inv_user _ _ (reachable_invariant _ _ _ Hreach)) as Hall.
  rewrite Forall_forall in Hall. exact (Hall msg Hmsg Huser).
Qed.

Lemma reachable_complete_resets_witness :
  let done :=
    {| visitorService.data_response := lit "Done.";
       visitorService.data_next_step := None;
       visitorService.data_visitor_info :=
         Some {[ lit "registration_completed" := JBool true ]} |} in
  let w :=
    {| Page.app :=
         App.handleSend_settled (visitorService.Fulfilled done) 8 9
           (App.add_user_message (lit "yes") 5 (App.INITIAL_STATE 0));
       Page.input := [];
       Page.inFlight := [] |} in
  App.handleSend 0 (Page.app w) (lit "next") 12
  = App.Returned (App.INITIAL_STATE 0).
Proof.
  intros done w.
  apply (reachable_complete_resets 0 ChatContainer.input_props w (lit "next") 12).
  - exists [Page.Edit (lit "yes"); Page.Submit 5;
            Page.Settle 0 (visitorService.Fulfilled done) 8 9].
    reflexivity.
  - reflexivity.
Defined.

Lemma reachable_loading_has_pending_witness :
  Page.inFlight
    {| Page.app := App.add_user_message (lit "hello") 5 (App.INITIAL_STATE 0);
       Page.input := [];
       Page.inFlight :=
         [visitorService.processMessage (lit "hello") (lit "visitor_type") ∅] |}
  ≠ [].
Proof.
  apply (reachable_loading_has_pending 0 ChatContainer.input_props).
  - exists [Page.Edit (lit " hello"); Page.Submit 5]. reflexivity.
  - reflexivity.
Defined.

Lemma reachable_calls_well_formed_witness :
  let call := visitorService.processMessage (lit "hello") (lit "visitor_type") ∅ in
  visitorService.message call ≠ []
  ∧ trim (visitorService.message call) = visitorService.message call
  ∧ (length (visitorService.message call) ≤ 300)%nat
  ∧ visitorService.current_step call ≠ []
  ∧ visitorService.current_step call ≠ lit "complete".
Proof.
  intros call.
  apply (reachable_calls_well_formed 0 ChatContainer.input_props
           {| Page.app := App.add_user_message (lit "hello") 5 (App.INITIAL_STATE 0);
              Page.input := [];
              Page.inFlight := [call] |}).
  - exists [Page.Edit (lit " hello"); Page.Submit 5]. reflexivity.
  - apply list_elem_of_here.
Defined.

Lemma reachable_transcript_starts_with_welcome_witness :
  head (messages (App.handleSend_settled visitorService.Rejected 8 8
                    (App.add_user_message (lit "guest") 5 (App.INITIAL_STATE 0))))
  = Some (welcome_message 0).
Proof.
  apply (reachable_transcript_starts_with_welcome 0 ChatContainer.input_props
           {| Page.app :=
                App.handleSend_settled visitorService.Rejected 8 8
                  (App.add_user_message (lit "guest") 5 (App.INITIAL_STATE 0));
              Page.input := [];
              Page.inFlight := [] |}).
  exists [Page.Click App.Guest 5; Page.Settle 0 visitorService.Rejected 8 8].
  reflexivity.
Defined.

Lemma reachable_user_messages_sendable_witness :
  let msg := {| type := user; content := lit "hello"; timestamp := 5 |} in
  content msg ≠ []
  ∧ trim (content msg) = content msg
  ∧ (length (content msg) ≤ 300)%nat.
Proof.
  intros msg.
  apply (reachable_user_messages_sendable 0 ChatContainer.input_props
           {| Page.app := App.add_user_message (lit "hello") 5 (App.INITIAL_STATE 0);
              Page.input := [];
              Page.inFlight :=
                [visitorService.processMessage (lit "hello") (lit "visitor_type") ∅] |}).
  - exists [Page.Edit (lit " hello"); Page.Submit 5]. reflexivity.
  - apply list_elem_of_further, list_elem_of_here.
  - reflexivity.
Defined.

(** ** The sibling container *)

(** Without clicks on the buttons, an event under the sibling container
    keeps at most one call pending, and the page loading exactly then. *)
Lemma sibling_step_single loadTime w e w' :
  Page.step loadTime ChatContainerSibling.input_props w e = Some w' →
  is_click e = false →
  (length (Page.inFlight w) ≤ 1)%nat
  ∧ (isLoading (Page.app w) = true ↔ Page.inFlight w ≠ []) →
  (length (Page.inFlight w') ≤ 1)%nat
  ∧ (isLoading (Page.app w') = true ↔ Page.inFlight w' ≠ []).
Proof.
  intros Hstep Hclick [Hone Hiff].
  destruct (step_cases _ _ _ _ _ Hstep)
    as [(Happ & Hcalls & _)
       |[(m & now & Hm & Happ & Hcalls)
        |(i & call & outcome & now & now' & Hi & Happ & Hcalls & _)]].
  - by rewrite Happ, Hcalls.
  - destruct Hm as [(_ & _ & _ & Henabled)|(b & _ & _ & _ & Hclicked)];
      [|congruence].
    change (isLoading (Page.app w) = false) in Henabled.
    assert (Page.inFlight w = []) as Hnone.
    { destruct (Page.inFlight w); [done|].
      assert (isLoading (Page.app w) = true) by by apply Hiff. congruence. }
    rewrite Happ, Hcalls, Hnone.
    destruct (handleSend_cases loadTime (Page.app w) m now) as [[_ ->]|[_ ->]];
      simpl; split; try lia; split; done.
  - destruct (Page.inFlight w) as [|call' [|? ?]] eqn:E; simpl in Hone;
      [done| |lia].
    destruct i; [|done].
    rewrite Happ, Hcalls.
    destruct (handleSend_settled_shape outcome now now' (Page.app w))
      as (_ & _ & _ & -> & _).
    simpl. split; [lia|]. split; done.
Qed.

(** X9. Under the sibling container, which passes [disabled={isLoading}],
    a session driven through the text input alone never has two calls
    pending, and is loading exactly while one is. *)
Theorem sibling_sends_never_overlap loadTime events w :
  Page.run loadTime ChatContainerSibling.input_props (Page.initial loadTime) events
  = Some w →
  existsb is_click events = false →
  (length (Page.inFlight w) ≤ 1)%nat
  ∧ (isLoading (Page.app w) = true ↔ Page.inFlight w ≠ []).
Proof.
  assert (∀ w0,
    Page.run loadTime ChatContainerSibling.input_props w0 events = Some w →
    existsb is_click events = false →
    (length (Page.inFlight w0) ≤ 1)%nat
    ∧ (isLoading (Page.app w0) = true ↔ Page.inFlight w0 ≠ []) →
    (length (Page.inFlight w) ≤ 1)%nat
    ∧ (isLoading (Page.app w) = true ↔ Page.inFlight w ≠ [])) as Hrun.
  { induction events as [|e events IH]; intros w0; simpl.
    - by intros [= <-].
    - destruct (Page.step _ _ w0 e) as [w1|] eqn:E; simpl; [|discriminate].
      intros Hrest [Hclick Hclicks]%orb_false_elim Hinv.
      apply (IH w1 Hrest Hclicks). by eapply sibling_step_single. }
  intros Hw Hclicks. apply (Hrun _ Hw Hclicks). simpl. split; [lia|done].
Qed.

Lemma sibling_sends_never_overlap_witness :
  let w :=
    {| Page.app := App.add_user_message (lit "hello") 5 (App.INITIAL_STATE 0);
       Page.input := [];
       Page.inFlight :=
         [visitorService.processMessage (lit "hello") (lit "visitor_type") ∅] |} in
  (length (Page.inFlight w) ≤ 1)%nat.
Proof.
  intros w.
  apply (sibling_sends_never_overlap 0
           [Page.Edit (lit "hello"); Page.Submit 5; Page.Submit 6] w);
    reflexivity.
Defined.

(** ** Turns one after the other *)

(** X10. Visitor information merged over two fulfilled calls reads, field
    by field, from the later reply, else from the earlier one, else from
    what was there before; and merging the same reply a second time changes
    nothing. *)
Theorem merge_over_two_replies data1 data2 now1 now1' now2 now2' prev :
  let after1 :=
    App.handleSend_settled (visitorService.Fulfilled data1) now1 now1' prev in
  let after2 :=
    App.handleSend_settled (visitorService.Fulfilled data2) now2 now2' after1 in
  (∀ k, visitorInfo after2 !! k =
     match optional_get (visitorService.data_visitor_info data2) k with
     | Some x => Some x
     | None =>
         match optional_get (visitorService.data_visitor_info data1) k with
         | Some x => Some x
         | None => visitorInfo prev !! k
         end
     end)
  ∧ (visitorService.data_visitor_info data2 = visitorService.data_visitor_info data1 →
     visitorInfo after2 = visitorInfo after1).
Proof.
  intros after1 after2. unfold after2, after1.
  rewrite !handleSend_settled_visitorInfo. split.
  - intros k. by rewrite !spread_lookup.
  - intros ->. apply map_eq. intros k. rewrite !spread_lookup.
    by destruct (optional_get _ k).
Qed.

Lemma merge_over_two_replies_witness :
  let info : JSObject := {[ lit "phone" := JStr (lit "123") ]} in
  let data :=
    {| visitorService.data_response := lit "ok";
       visitorService.data_next_step := None;
       visitorService.data_visitor_info := Some info |} in
  let prev := App.add_user_message (lit "123") 5 (App.INITIAL_STATE 0) in
  visitorInfo
    (App.handleSend_settled (visitorService.Fulfilled data) 8 8
       (App.handleSend_settled (visitorService.Fulfilled data) 6 6 prev))
  = visitorInfo (App.handleSend_settled (visitorService.Fulfilled data) 6 6 prev).
Proof.
  intros info data prev.
  apply (merge_over_two_replies data data 6 6 8 8 prev). reflexivity.
Defined.

(** X11. The send that resets takes its text nowhere, and the send after it
    starts from scratch: the transcript is the welcome message and the new
    user message, and the call carries the step ["visitor_type"] and no
    visitor information of the conversation before. *)
Theorem send_after_reset_starts_clean loadTime state m now m' now' :
  App.completed_and_idle state = true →
  App.handleSend loadTime
    (App.state_of (App.handleSend loadTime state m now)) m' now'
  = App.Awaiting
      {| messages := [ welcome_message loadTime;
                       {| type := user; content := m'; timestamp := now' |} ];
         currentStep := lit "visitor_type";
         visitorInfo := ∅;
         isLoading := true |}
      (visitorService.processMessage m' (lit "visitor_type") ∅).
Proof.
  intros Hdone. rewrite (handleSend_returned loadTime state m now Hdone).
  simpl. by rewrite handleSend_awaiting.
Qed.

Lemma send_after_reset_starts_clean_witness :
  let state :=
    {| messages := [ {| type := bot; content := lit "Done."; timestamp := 3 |} ];
       currentStep := lit "complete";
       visitorInfo := {[ lit "full_name" := JStr (lit "A") ]};
       isLoading := false |} in
  App.calls_of
    (App.handleSend 0 (App.state_of (App.handleSend 0 state (lit "x") 7))
       (lit "guest") 9)
  = [visitorService.processMessage (lit "guest") (lit "visitor_type") ∅].
Proof.
  intros state.
  rewrite (send_after_reset_starts_clean 0 state (lit "x") 7 (lit "guest") 9);
    reflexivity.
Defined.

(** X12. After a turn that failed, sending the same text again makes the
    same request as the first time: the failure left the step and the
    visitor information alone and cleared the loading flag. *)
Theorem retry_after_failure_same_request loadTime state m sent now now' again :
  currentStep state ≠ lit "complete" →
  let failed := App.turn loadTime state m sent visitorService.Rejected now now' in
  isLoading failed = false
  ∧ App.calls_of (App.handleSend loadTime failed m again)
    = App.calls_of (App.handleSend loadTime state m sent)
  ∧ App.calls_of (App.handleSend loadTime state m sent)
    = [visitorService.processMessage m (currentStep state) (visitorInfo state)].
Proof.
  intros Hactive failed.
  assert (App.completed_and_idle state = false) as Hc.
  { unfold App.completed_and_idle. by rewrite bool_decide_eq_false_2. }
  assert (failed = App.error_flow now (App.add_user_message m sent state)) as ->.
  { unfold failed, App.turn. by rewrite handleSend_awaiting. }
  rewrite !handleSend_awaiting; [done|done|].
  unfold App.completed_and_idle. simpl. by rewrite bool_decide_eq_false_2.
Qed.

Lemma retry_after_failure_same_request_witness :
  App.calls_of
    (App.handleSend 0
       (App.turn 0 (App.INITIAL_STATE 0) (lit "guest") 5
          visitorService.Rejected 8 8)
       (lit "guest") 9)
  = App.calls_of (App.handleSend 0 (App.INITIAL_STATE 0) (lit "guest") 5).
Proof.
  destruct (retry_after_failure_same_request 0 (App.INITIAL_STATE 0)
              (lit "guest") 5 8 8 9) as (_ & H & _); [discriminate|exact H].
Defined.

(** ** The visitor records *)


(** ** More on the input control and on late replies *)

(** X14. Submitting twice in a row sends at most once: after any submit,
    a second submit of what is left in the buffer calls [onSend] zero times
    and leaves the buffer as it is. *)
Theorem second_submit_sends_nothing p buffer :
  let left := (ChatInput.handleSubmit p buffer).2 in
  ChatInput.handleSubmit p left = ([], left).
Proof.
  simpl. unfold ChatInput.handleSubmit at 2 3.
  destruct (non_empty (trim buffer) && negb (ChatInput.disabled_or_default p))
    eqn:E; simpl; [done|].
  unfold ChatInput.handleSubmit. by rewrite E.
Qed.

(** X15. A settled call is applied to whatever state the page then has.
    When a call is still pending at the idle end of a conversation and the
    user's next send resets it, the late reply lands in the new
    conversation: its text follows the welcome message and its
    [visitor_info] becomes the visitor information of the new visitor. *)
Theorem late_reply_lands_after_reset loadTime input_props w i call data now t t' :
  App.completed_and_idle (Page.app w) = true →
  Page.inFlight w !! i = Some call →
  whitespace_only (Page.input w) = false →
  ChatInput.disabled_or_default (input_props (isLoading (Page.app w))) = false →
  ∃ w', Page.run loadTime input_props w
          [Page.Submit now; Page.Settle i (visitorService.Fulfilled data) t t']
        = Some w'
        ∧ Page.app w' =
            App.handleSend_settled (visitorService.Fulfilled data) t t'
              (App.INITIAL_STATE loadTime)
        ∧ head (messages (Page.app w')) = Some (welcome_message loadTime)
        ∧ visitorInfo (Page.app w')
          = default ∅ (visitorService.data_visitor_info data).
Proof.
  intros Hdone Hcall Hfull Henabled.
  exists {| Page.app :=
              App.handleSend_settled (visitorService.Fulfilled data) t t'
                (App.INITIAL_STATE loadTime);
            Page.input := [];
            Page.inFlight := delete i (Page.inFlight w) |}.
  split_and!.
  - cbn [Page.run Page.step].
    unfold ChatInput.handleSubmit. rewrite non_empty_trim, Hfull, Henabled.
    cbn [negb andb foldl mbind option_bind].
    unfold Page.onSend. rewrite handleSend_returned by done.
    unfold Page.started. cbn [App.state_of App.calls_of Page.app Page.input
                               Page.inFlight].
    by rewrite app_nil_r, Hcall.
  - done.
  - cbn [Page.app].
    destruct (handleSend_settled_shape (visitorService.Fulfilled data) t t'
                (App.INITIAL_STATE loadTime)) as (added & -> & _). done.
  - cbn [Page.app]. rewrite handleSend_settled_visitorInfo. unfold spread.
    apply (right_id_L ∅ (∪)).
Qed.

Lemma late_reply_lands_after_reset_witness :
  let done :=
    {| visitorService.data_response := lit "Done.";
       visitorService.data_next_step := None;
       visitorService.data_visitor_info :=
         Some {[ lit "registration_completed" := JBool true ]} |} in
  let late :=
    {| visitorService.data_response := lit "Noted.";
       visitorService.data_next_step := Some (lit "host");
       visitorService.data_visitor_info :=
         Some {[ lit "full_name" := JStr (lit "A") ]} |} in
  ∃ w w',
    Page.run 0 ChatContainer.input_props (Page.initial 0)
      [Page.Edit (lit "A"); Page.Submit 1; Page.Edit (lit "yes"); Page.Submit 2;
       Page.Settle 0 (visitorService.Fulfilled done) 3 3; Page.Edit (lit "hi")]
    = Some w
    ∧ Page.run 0 ChatContainer.input_props w
        [Page.Submit 4; Page.Settle 0 (visitorService.Fulfilled late) 5 5]
      = Some w'
    ∧ visitorInfo (Page.app w') = {[ lit "full_name" := JStr (lit "A") ]}.
Proof.
  intros done late.
  set (w :=
    {| Page.app :=
         App.handleSend_settled (visitorService.Fulfilled done) 3 3
           (App.add_user_message (lit "yes") 2
              (App.add_user_message (lit "A") 1 (App.INITIAL_STATE 0)));
       Page.input := lit "hi";
       Page.inFlight :=
         [visitorService.processMessage (lit "yes") (lit "visitor_type") ∅] |}).
  destruct (late_reply_lands_after_reset 0 ChatContainer.input_props w 0%nat
              (visitorService.processMessage (lit "yes") (lit "visitor_type") ∅)
              late 4 5 5) as (w' & Hrun & _ & _ & Hinfo);
    [reflexivity | reflexivity | reflexivity | reflexivity | ].
  exists w, w'. split_and!; [reflexivity | exact Hrun | exact Hinfo].
Defined.
